(** * gridgame.model: rule strategies and the match orchestrator

    A shallow embedding of [src/gridgame/model.py].  Python integers are
    [Z], symbols are strings, insertion-ordered dictionaries are association
    lists, the board's cell store is a [gmap], and exceptions are an error
    result that leaves the object state as it was when they were raised. *)

From stdpp Require Import gmap strings list.

Local Open Scope Z_scope.

(** ** Exceptions and results *)

Inductive exn : Set :=
  | ValueError
  | NotImplementedError
  | IndexError
  | KeyError.

Inductive result (A : Type) : Type :=
  | Ok (a : A)
  | Raise (e : exn).

Arguments Ok {A} a.
Arguments Raise {A} e.

#[global] Instance exn_eq_dec : EqDecision exn.
Proof. solve_decision. Defined.

#[global] Instance result_eq_dec {A} `{EqDecision A} : EqDecision (result A).
Proof. solve_decision. Defined.

Definition rbind {A B} (r : result A) (k : A → result B) : result B :=
  match r with
  | Ok a => k a
  | Raise e => Raise e
  end.

Notation "'try!' x ':=' r 'in' k" := (rbind r (λ x, k))
  (at level 10, x name, r at level 100, k at level 200,
   format "'[v' 'try!'  x  ':='  r  'in' '/' k ']'").

(** ** project_types: PlayerId, Symbol, Cell, Feedback *)

Definition PlayerId := Z.
Definition Symbol := string.

Record Cell : Set := mkCell { row : Z; column : Z }.

#[global] Instance Cell_eq_dec : EqDecision Cell.
Proof. solve_decision. Defined.

#[global] Instance Cell_countable : Countable Cell.
Proof.
  refine (inj_countable' (λ c, (row c, column c)) (λ p, mkCell p.1 p.2) _).
  by intros [].
Defined.

Inductive Feedback : Set :=
  | VALID
  | GAME_OVER
  | INVALID_SYMBOL
  | OUT_OF_BOUNDS
  | OCCUPIED.

#[global] Instance Feedback_eq_dec : EqDecision Feedback.
Proof. solve_decision. Defined.

(** ** Insertion-ordered dictionaries

    A Python [dict] keeps its keys in insertion order; assigning to a key
    that is present replaces the value and keeps the key's position. *)

Module PyDict.
Section dict.
Context {K V : Type} `{EqDecision K}.

Fixpoint set (k : K) (v : V) (d : list (K * V)) : list (K * V) :=
  match d with
  | [] => [(k, v)]
  | (k', v') :: d' =>
      if decide (k = k') then (k, v) :: d' else (k', v') :: set k v d'
  end.

(** [{k: v for k, v in items}] *)
Definition of_items (items : list (K * V)) : list (K * V) :=
  fold_left (λ d kv, set kv.1 kv.2 d) items [].

Fixpoint get (k : K) (d : list (K * V)) : option V :=
  match d with
  | [] => None
  | (k', v) :: d' => if decide (k = k') then Some v else get k d'
  end.

(** [k in d] *)
Definition contains (k : K) (d : list (K * V)) : bool :=
  bool_decide (is_Some (get k d)).

(** [d[k]] *)
Definition getitem (k : K) (d : list (K * V)) : result V :=
  match get k d with
  | Some v => Ok v
  | None => Raise KeyError
  end.

Definition keys (d : list (K * V)) : list K := d.*1.
Definition values (d : list (K * V)) : list V := d.*2.
Definition items (d : list (K * V)) : list (K * V) := d.
End dict.
End PyDict.

(** [enumerate(xs, start)] *)
Definition enumerate {A} (xs : list A) (start : Z) : list (Z * A) :=
  zip (seqZ start (Z.of_nat (length xs))) xs.

(** ** Field

    The board lives in [project_types], which is not part of the modelled
    file; the definitions below follow the collaborator contract of the
    specification. *)

Module Field.

(** Modelled from the spec: the class [Field] of [project_types] (the
    [grid_size] by [grid_size] board that maps occupied cells to
    symbols).  Its constructor takes the grid size and starts with no
    occupied cell. *)
Record t : Type := mk {
  grid_size : Z;
  occupied_cells : gmap Cell Symbol;
}.

(** Modelled from the spec: [Field(grid_size)], an empty board. *)
Definition new (grid_size : Z) : t := mk grid_size ∅.

(** Modelled from the spec: [Field.valid_coords], the ordered index
    range [1..grid_size]. *)
Definition valid_coords (f : t) : list Z := seqZ 1 (grid_size f).

(** Modelled from the spec: [Field.is_within_bounds]; a cell is out of
    bounds when it lies outside [1..grid_size] in either axis. *)
Definition is_within_bounds (f : t) (cell : Cell) : bool :=
  bool_decide (1 ≤ row cell ≤ grid_size f) &&
  bool_decide (1 ≤ column cell ≤ grid_size f).

(** Modelled from the spec: [Field.get_symbol_at], an optional symbol. *)
Definition get_symbol_at (f : t) (cell : Cell) : option Symbol :=
  occupied_cells f !! cell.

(** Modelled from the spec: [Field.place_symbol], the mutator that
    records [symbol] at [cell]. *)
Definition place_symbol (symbol : Symbol) (cell : Cell) (f : t) : t :=
  mk (grid_size f) (<[cell := symbol]> (occupied_cells f)).

(** Modelled from the spec: [Field.has_unoccupied_cell]; some cell of
    the board holds no symbol. *)
Definition has_unoccupied_cell (f : t) : bool :=
  existsb (λ r,
    existsb (λ c, bool_decide (get_symbol_at f (mkCell r c) = None))
            (valid_coords f))
    (valid_coords f).

(** Modelled from the spec: [Field.are_all_equal_to_basis], the batch
    predicate that all cells of a group equal a given symbol. *)
Definition are_all_equal_to_basis (f : t) (basis : Symbol)
    (group : list Cell) : bool :=
  forallb (λ cell, bool_decide (get_symbol_at f cell = Some basis)) group.

End Field.

(** ** Rule strategies *)

Inductive GameType : Set :=
  | TicTacToeGameType
  | WildTicTacToeGameType
  | NotaktoGameType.

#[global] Instance GameType_eq_dec : EqDecision GameType.
Proof. solve_decision. Defined.

(** The three families of lines built at the start of [winner]. *)
Definition row_groups (field : Field.t) : list (list Cell) :=
  (λ row, (λ k, mkCell row k) <$> Field.valid_coords field)
    <$> Field.valid_coords field.

Definition col_groups (field : Field.t) : list (list Cell) :=
  (λ col, (λ k, mkCell k col) <$> Field.valid_coords field)
    <$> Field.valid_coords field.

Definition diagonals (field : Field.t) : list (list Cell) :=
  [ (* Backslash *)
    (λ k, mkCell k k) <$> Field.valid_coords field;
    (* Forward slash *)
    (λ k, mkCell k (Field.grid_size field - k + 1))
      <$> Field.valid_coords field ].

(** The inner loop [for group in groups]: [group[0]] raises [IndexError]
    on an empty group; [Ok None] means the loop ran to its end. *)
Fixpoint scan_groups (field : Field.t) (player : PlayerId)
    (groups : list (list Cell)) : result (option PlayerId) :=
  match groups with
  | [] => Ok None
  | group :: groups' =>
      match group with
      | [] => Raise IndexError
      | first :: _ =>
          match Field.get_symbol_at field first with
          | Some basis =>
              if Field.are_all_equal_to_basis field basis group
              then Ok (Some player)
              else scan_groups field player groups'
          | None => scan_groups field player groups'
          end
      end
  end.

(** The outer loop [for groups in [row_groups, col_groups, diagonals]]. *)
Fixpoint scan_families (field : Field.t) (player : PlayerId)
    (families : list (list (list Cell))) : result (option PlayerId) :=
  match families with
  | [] => Ok None
  | groups :: families' =>
      match scan_groups field player groups with
      | Ok None => scan_families field player families'
      | found_or_raised => found_or_raised
      end
  end.

Module TicTacToeGameType.

Definition place_symbol (symbol : Symbol) (cell : Cell)
    (is_game_over : bool) (get_symbol_choices : list Symbol)
    (field : Field.t) : result Feedback * Field.t :=
  if is_game_over then (Ok GAME_OVER, field)
  else if bool_decide (symbol ∉ get_symbol_choices)
  then (Ok INVALID_SYMBOL, field)
  else if negb (Field.is_within_bounds field cell)
  then (Ok OUT_OF_BOUNDS, field)
  else if bool_decide (Field.get_symbol_at field cell ≠ None)
  then (Ok OCCUPIED, field)
  else (Ok VALID, Field.place_symbol symbol cell field).

Definition winner (field : Field.t) (player : PlayerId)
    (symbol : Symbol) : result (option PlayerId) :=
  scan_families field player
    [row_groups field; col_groups field; diagonals field].

Definition get_symbol_choices (player : PlayerId)
    (player_to_symbol : list (PlayerId * Symbol)) : result (list Symbol) :=
  if negb (PyDict.contains player player_to_symbol)
  then Raise ValueError
  else try! s := PyDict.getitem player player_to_symbol in Ok [s].

End TicTacToeGameType.

Module WildTicTacToeGameType.

Definition place_symbol (symbol : Symbol) (cell : Cell)
    (is_game_over : bool) (get_symbol_choices : list Symbol)
    (field : Field.t) : result Feedback * Field.t :=
  if is_game_over then (Ok GAME_OVER, field)
  else if bool_decide (symbol ∉ get_symbol_choices)
  then (Ok INVALID_SYMBOL, field)
  else if negb (Field.is_within_bounds field cell)
  then (Ok OUT_OF_BOUNDS, field)
  else if bool_decide (Field.get_symbol_at field cell ≠ None)
  then (Ok OCCUPIED, field)
  else (Ok VALID, Field.place_symbol symbol cell field).

(** Falling off the end of the function returns [None]. *)
Definition winner (field : Field.t) (player : PlayerId)
    (symbol : Symbol) : result (option PlayerId) :=
  scan_families field player
    [row_groups field; col_groups field; diagonals field].

Definition get_symbol_choices (player : PlayerId)
    (player_to_symbol : list (PlayerId * Symbol)) : result (list Symbol) :=
  if negb (PyDict.contains player player_to_symbol)
  then Raise ValueError
  else Ok (PyDict.values player_to_symbol).

End WildTicTacToeGameType.

Module NotaktoGameType.

Definition place_symbol (symbol : Symbol) (cell : Cell)
    (is_game_over : bool) (get_symbol_choices : list Symbol)
    (field : Field.t) : result Feedback * Field.t :=
  (Raise NotImplementedError, field).

Definition winner (field : Field.t) (player : PlayerId)
    (symbol : Symbol) : result (option PlayerId) :=
  Raise NotImplementedError.

Definition get_symbol_choices (player : PlayerId)
    (player_to_symbol : list (PlayerId * Symbol)) : result (list Symbol) :=
  Raise NotImplementedError.

End NotaktoGameType.

(** Method dispatch on the strategy object. *)
Module Strategy.

Definition place_symbol (g : GameType) :=
  match g with
  | TicTacToeGameType => TicTacToeGameType.place_symbol
  | WildTicTacToeGameType => WildTicTacToeGameType.place_symbol
  | NotaktoGameType => NotaktoGameType.place_symbol
  end.

Definition winner (g : GameType) :=
  match g with
  | TicTacToeGameType => TicTacToeGameType.winner
  | WildTicTacToeGameType => WildTicTacToeGameType.winner
  | NotaktoGameType => NotaktoGameType.winner
  end.

Definition get_symbol_choices (g : GameType) :=
  match g with
  | TicTacToeGameType => TicTacToeGameType.get_symbol_choices
  | WildTicTacToeGameType => WildTicTacToeGameType.get_symbol_choices
  | NotaktoGameType => NotaktoGameType.get_symbol_choices
  end.

End Strategy.

(** ** The match orchestrator *)

Module GridGameModel.

Record t : Type := mk {
  _valid_symbols : list Symbol;
  _game_type : GameType;
  _field : Field.t;
  _player_count : Z;
  _player_to_symbol : list (PlayerId * Symbol);
  _symbol_to_player : list (Symbol * PlayerId);
  _current_player : PlayerId;
}.

Definition __init__ (grid_size : Z) (player_symbols : list Symbol)
    (player_count : Z) (game_type : GameType) : result t :=
  if bool_decide (player_count ≤ 1) then Raise ValueError
  else
    let unique_symbols : gset Symbol := list_to_set player_symbols in
    if bool_decide (size unique_symbols ≠ length player_symbols)
    then Raise ValueError
    else if bool_decide (Z.of_nat (length player_symbols) ≠ player_count)
    then Raise ValueError
    else
      let player_to_symbol :=
        PyDict.of_items (enumerate player_symbols 1) in
      Ok {| _valid_symbols := player_symbols;
            _game_type := game_type;
            _field := Field.new grid_size;
            _player_count := player_count;
            _player_to_symbol := player_to_symbol;
            _symbol_to_player :=
              PyDict.of_items
                ((λ ks, (ks.2, ks.1)) <$> PyDict.items player_to_symbol);
            _current_player := 1 |}.

Definition occupied_cells (self : t) : gmap Cell Symbol :=
  Field.occupied_cells (_field self).

Definition grid_size (self : t) : Z := Field.grid_size (_field self).

Definition current_player (self : t) : PlayerId := _current_player self.

Definition player_count (self : t) : Z := _player_count self.

Definition next_player (self : t) : PlayerId :=
  if bool_decide (current_player self ≠ player_count self)
  then current_player self + 1
  else 1.

Definition winner (self : t) : result (option PlayerId) :=
  try! symbol :=
    PyDict.getitem (_current_player self) (_player_to_symbol self) in
  Strategy.winner (_game_type self) (_field self) (_current_player self)
    symbol.

Definition is_game_over (self : t) : result bool :=
  try! w := winner self in
  Ok (bool_decide (w ≠ None) || negb (Field.has_unoccupied_cell (_field self))).

Definition get_symbol_choices (self : t) (player : PlayerId)
    : result (list Symbol) :=
  Strategy.get_symbol_choices (_game_type self) player
    (_player_to_symbol self).

Definition set_field (field : Field.t) (self : t) : t :=
  {| _valid_symbols := _valid_symbols self;
     _game_type := _game_type self;
     _field := field;
     _player_count := _player_count self;
     _player_to_symbol := _player_to_symbol self;
     _symbol_to_player := _symbol_to_player self;
     _current_player := _current_player self |}.

Definition _switch_to_next_player (self : t) : t :=
  {| _valid_symbols := _valid_symbols self;
     _game_type := _game_type self;
     _field := _field self;
     _player_count := _player_count self;
     _player_to_symbol := _player_to_symbol self;
     _symbol_to_player := _symbol_to_player self;
     _current_player := next_player self |}.

(** A method that may mutate [self]: the outcome and the object after
    the call.  An exception leaves the mutations made before it. *)
Definition place_symbol (symbol : Symbol) (cell : Cell) (self : t)
    : result Feedback * t :=
  match is_game_over self with
  | Raise e => (Raise e, self)
  | Ok over =>
      let '(r, field') :=
        Strategy.place_symbol (_game_type self) symbol cell over
          (_valid_symbols self) (_field self) in
      let self := set_field field' self in
      match r with
      | Raise e => (Raise e, self)
      | Ok feedback =>
          if bool_decide (feedback = VALID) then
            match is_game_over self with
            | Raise e => (Raise e, self)
            | Ok over' =>
                if negb over'
                then (Ok feedback, _switch_to_next_player self)
                else (Ok feedback, self)
            end
          else (Ok feedback, self)
      end
  end.

End GridGameModel.

(** ** Reachable match states

    A match starts from a successful construction and evolves by
    [place_symbol] calls, whatever their outcome. *)

Inductive reachable : GridGameModel.t → Prop :=
  | reachable_init grid_size player_symbols player_count game_type self :
      GridGameModel.__init__ grid_size player_symbols player_count game_type
        = Ok self →
      reachable self
  | reachable_place self symbol cell :
      reachable self →
      reachable (GridGameModel.place_symbol symbol cell self).2.

(** ** Lines as the specification words them *)

(** A line is won when its first cell is occupied and every cell of the
    line holds the symbol of the first cell. *)
Definition line_won (field : Field.t) (line : list Cell) : bool :=
  match line with
  | [] => false
  | first :: _ =>
      match Field.get_symbol_at field first with
      | Some basis =>
          forallb (λ c, bool_decide (Field.get_symbol_at field c = Some basis))
                  line
      | None => false
      end
  end.

(** The row [r], the column [c] and the two diagonals of an [n] by [n]
    board, each from index 1 to index [n]. *)
Definition row_line (n r : Z) : list Cell := (λ k, mkCell r k) <$> seqZ 1 n.
Definition col_line (n c : Z) : list Cell := (λ k, mkCell k c) <$> seqZ 1 n.
Definition backslash (n : Z) : list Cell := (λ k, mkCell k k) <$> seqZ 1 n.
Definition forward_slash (n : Z) : list Cell :=
  (λ k, mkCell k (n - k + 1)) <$> seqZ 1 n.

(** Every full row, then every full column, then the backslash diagonal
    and the forward-slash diagonal. *)
Definition lines_of (n : Z) : list (list Cell) :=
  (row_line n <$> seqZ 1 n) ++ (col_line n <$> seqZ 1 n) ++
  [backslash n; forward_slash n].

(** Every cell of the line holds [symbol]. *)
Definition line_filled_with (field : Field.t) (symbol : Symbol)
    (line : list Cell) : Prop :=
  Forall (λ c, Field.get_symbol_at field c = Some symbol) line.

(** ** Sample matches *)

(** A Classic 3 by 3 match of two players, as [__init__] builds it. *)
Definition classic_start : GridGameModel.t :=
  {| GridGameModel._valid_symbols := ["X"; "O"];
     GridGameModel._game_type := TicTacToeGameType;
     GridGameModel._field := Field.new 3;
     GridGameModel._player_count := 2;
     GridGameModel._player_to_symbol := [(1, "X"); (2, "O")];
     GridGameModel._symbol_to_player := [("X", 1); ("O", 2)];
     GridGameModel._current_player := 1 |}.

(** A 3 by 3 board whose first row is filled with ["O"]. *)
Definition top_row_of_O : Field.t :=
  Field.place_symbol "O" (mkCell 1 3)
    (Field.place_symbol "O" (mkCell 1 2)
       (Field.place_symbol "O" (mkCell 1 1) (Field.new 3))).

(** A sequence of [place_symbol] calls on one match object. *)
Definition play (moves : list (Symbol * Cell)) (self : GridGameModel.t)
    : GridGameModel.t :=
  fold_left (λ m move, (GridGameModel.place_symbol move.1 move.2 m).2)
            moves self.

(** Player 1 fills the first row while player 2 plays in the second. *)
Definition classic_row_win : GridGameModel.t :=
  play [("X", mkCell 1 1); ("O", mkCell 2 1); ("X", mkCell 1 2);
        ("O", mkCell 2 2); ("X", mkCell 1 3)] classic_start.

(** Nine moves that fill the board without completing a line. *)
Definition classic_draw : GridGameModel.t :=
  play [("X", mkCell 1 1); ("O", mkCell 1 2); ("X", mkCell 1 3);
        ("O", mkCell 2 2); ("X", mkCell 2 1); ("O", mkCell 2 3);
        ("X", mkCell 3 2); ("O", mkCell 3 1); ("X", mkCell 3 3)]
       classic_start.

(** A Notakto match and a Wild match of two players on a 3 by 3 board,
    as [__init__] builds them. *)
Definition notakto_start : GridGameModel.t :=
  {| GridGameModel._valid_symbols := ["X"; "O"];
     GridGameModel._game_type := NotaktoGameType;
     GridGameModel._field := Field.new 3;
     GridGameModel._player_count := 2;
     GridGameModel._player_to_symbol := [(1, "X"); (2, "O")];
     GridGameModel._symbol_to_player := [("X", 1); ("O", 2)];
     GridGameModel._current_player := 1 |}.

Definition wild_start : GridGameModel.t :=
  {| GridGameModel._valid_symbols := ["X"; "O"];
     GridGameModel._game_type := WildTicTacToeGameType;
     GridGameModel._field := Field.new 3;
     GridGameModel._player_count := 2;
     GridGameModel._player_to_symbol := [(1, "X"); (2, "O")];
     GridGameModel._symbol_to_player := [("X", 1); ("O", 2)];
     GridGameModel._current_player := 1 |}.

(** The same match object with another strategy object in it. *)
Definition with_game_type (g : GameType) (self : GridGameModel.t)
    : GridGameModel.t :=
  {| GridGameModel._valid_symbols := GridGameModel._valid_symbols self;
     GridGameModel._game_type := g;
     GridGameModel._field := GridGameModel._field self;
     GridGameModel._player_count := GridGameModel._player_count self;
     GridGameModel._player_to_symbol := GridGameModel._player_to_symbol self;
     GridGameModel._symbol_to_player := GridGameModel._symbol_to_player self;
     GridGameModel._current_player := GridGameModel._current_player self |}.

(** The cells of an [n] by [n] board, row by row. *)
Definition grid_cells (n : Z) : list Cell :=
  (λ rc : Z * Z, mkCell rc.1 rc.2) <$> cprod (seqZ 1 n) (seqZ 1 n).

(** ** The invariant of the orchestrator's state *)

Import GridGameModel.

Record well_formed (self : GridGameModel.t) : Prop := {
  wf_player_count : 2 ≤ _player_count self;
  wf_symbols_nodup : NoDup (_valid_symbols self);
  wf_symbols_length :
    Z.of_nat (length (_valid_symbols self)) = _player_count self;
  wf_player_to_symbol :
    _player_to_symbol self = enumerate (_valid_symbols self) 1;
  wf_current_player : 1 ≤ _current_player self ≤ _player_count self;
}.

(** * Properties *)

(** ** Strategy-level placement *)

Section strategy_place_symbol.
Variables (symbol : Symbol) (cell : Cell) (allowed : list Symbol).
Variable field : Field.t.

Lemma classic_wild_place_symbol_eq over :
  WildTicTacToeGameType.place_symbol symbol cell over allowed field
  = TicTacToeGameType.place_symbol symbol cell over allowed field.
Proof. reflexivity. Qed.

Lemma is_within_bounds_spec :
  Field.is_within_bounds field cell = true ↔
  1 ≤ row cell ≤ Field.grid_size field ∧
  1 ≤ column cell ≤ Field.grid_size field.
Proof.
  unfold Field.is_within_bounds.
  rewrite andb_true_iff, !bool_decide_eq_true. tauto.
Qed.

Lemma place_symbol_field_unchanged g over fb field' :
  Strategy.place_symbol g symbol cell over allowed field = (Ok fb, field') →
  fb ≠ VALID → field' = field.
Proof.
  destruct g; simpl;
    unfold TicTacToeGameType.place_symbol, WildTicTacToeGameType.place_symbol,
      NotaktoGameType.place_symbol;
    repeat case_match; intros [= <- <-]; congruence.
Qed.

Lemma place_symbol_valid_inv g over field' :
  Strategy.place_symbol g symbol cell over allowed field = (Ok VALID, field') →
  over = false ∧ symbol ∈ allowed ∧ Field.is_within_bounds field cell = true ∧
  Field.get_symbol_at field cell = None ∧
  field' = Field.place_symbol symbol cell field.
Proof.
  destruct g; simpl;
    unfold TicTacToeGameType.place_symbol, WildTicTacToeGameType.place_symbol,
      NotaktoGameType.place_symbol;
    repeat case_match; intros [= <-]; try discriminate;
    repeat match goal with
    | H : bool_decide _ = false |- _ => apply bool_decide_eq_false in H
    | H : negb _ = false |- _ => apply negb_false_iff in H
    end;
    (split_and!; [done | by apply dec_stable | done | by apply dec_stable | done]).
Qed.

End strategy_place_symbol.

(** C3. The Classic and the Wild strategy evaluate the checks of
    [place_symbol] in strict order, stopping at the first that holds: a
    finished game gives GAME_OVER; otherwise a symbol outside the allowed
    ones gives INVALID_SYMBOL, whatever the cell; otherwise a cell outside
    [1..grid_size] in either axis gives OUT_OF_BOUNDS; otherwise an occupied
    cell gives OCCUPIED; each of these leaves the field as it was.  When no
    check holds the symbol is recorded at the cell, nothing else on the
    board changes, and the result is VALID. *)
Theorem place_symbol_precedence (g : GameType) (symbol : Symbol) (cell : Cell)
    (is_game_over : bool) (allowed : list Symbol) (field : Field.t) :
  g = TicTacToeGameType ∨ g = WildTicTacToeGameType →
  let out := Strategy.place_symbol g symbol cell is_game_over allowed field in
  let in_bounds :=
    1 ≤ row cell ≤ Field.grid_size field ∧
    1 ≤ column cell ≤ Field.grid_size field in
  let occupied := is_Some (Field.occupied_cells field !! cell) in
  (is_game_over = true → out = (Ok GAME_OVER, field)) ∧
  (is_game_over = false → symbol ∉ allowed →
     out = (Ok INVALID_SYMBOL, field)) ∧
  (is_game_over = false → symbol ∈ allowed → ¬ in_bounds →
     out = (Ok OUT_OF_BOUNDS, field)) ∧
  (is_game_over = false → symbol ∈ allowed → in_bounds → occupied →
     out = (Ok OCCUPIED, field)) ∧
  (is_game_over = false → symbol ∈ allowed → in_bounds → ¬ occupied →
     out = (Ok VALID,
            Field.mk (Field.grid_size field)
                     (<[cell := symbol]> (Field.occupied_cells field)))).
Proof.
  intros Hg out in_bounds occupied.
  assert (out = TicTacToeGameType.place_symbol symbol cell is_game_over allowed field)
    as -> by (by destruct Hg as [-> | ->]).
  pose proof (is_within_bounds_spec cell field) as Hb.
  fold in_bounds in Hb.
  unfold TicTacToeGameType.place_symbol.
  split_and!.
  - by intros ->.
  - intros -> Hs. by rewrite bool_decide_eq_true_2.
  - intros -> Hs Hnb. rewrite bool_decide_eq_false_2 by auto.
    destruct (Field.is_within_bounds field cell); [|done].
    exfalso. by apply Hnb, Hb.
  - intros -> Hs Hin Hocc. rewrite bool_decide_eq_false_2 by auto.
    apply Hb in Hin as ->. simpl.
    rewrite bool_decide_eq_true_2; [done|].
    unfold Field.get_symbol_at. by destruct Hocc as [? ->].
  - intros -> Hs Hin Hfree. rewrite bool_decide_eq_false_2 by auto.
    apply Hb in Hin as ->. simpl.
    rewrite bool_decide_eq_false_2; [done|].
    unfold Field.get_symbol_at. intros Hne. apply Hfree. unfold occupied.
    destruct (Field.occupied_cells field !! cell); [eauto | done].
Qed.

Lemma place_symbol_precedence_witness :
  Strategy.place_symbol TicTacToeGameType "Z" (mkCell 4 1) false ["X"; "O"]
    (Field.new 3) = (Ok INVALID_SYMBOL, Field.new 3).
Proof.
  apply (place_symbol_precedence TicTacToeGameType "Z" (mkCell 4 1) false
           ["X"; "O"] (Field.new 3)).
  - left. reflexivity.
  - reflexivity.
  - by intros [?|[?|?%elem_of_nil]%elem_of_cons]%elem_of_cons.
Defined.

(** C10. Every operation of the reserved Notakto strategy raises
    [NotImplementedError], an error distinct from the invalid-argument
    [ValueError]; none of them returns a Feedback or any other value, and
    the board passed to [place_symbol] is left untouched. *)
Theorem notakto_not_supported (symbol : Symbol) (cell : Cell)
    (is_game_over : bool) (allowed : list Symbol) (field : Field.t)
    (player : PlayerId) (player_to_symbol : list (PlayerId * Symbol)) :
  Strategy.place_symbol NotaktoGameType symbol cell is_game_over allowed field
    = (Raise NotImplementedError, field) ∧
  Strategy.winner NotaktoGameType field player symbol
    = Raise NotImplementedError ∧
  Strategy.get_symbol_choices NotaktoGameType player player_to_symbol
    = Raise NotImplementedError ∧
  (∀ fb, (Strategy.place_symbol NotaktoGameType symbol cell is_game_over
            allowed field).1 ≠ Ok fb) ∧
  (∀ w, Strategy.winner NotaktoGameType field player symbol ≠ Ok w) ∧
  (∀ l, Strategy.get_symbol_choices NotaktoGameType player player_to_symbol
          ≠ Ok l) ∧
  NotImplementedError ≠ ValueError.
Proof. split_and!; done. Qed.

(** ** Dictionaries, enumeration and the uniqueness test *)

Section dict_facts.
Context {K V : Type} `{EqDecision K}.
Implicit Types (d items : list (K * V)) (k : K) (v : V).

Lemma dict_set_fresh k v d :
  k ∉ d.*1 → PyDict.set k v d = d ++ [(k, v)].
Proof.
  induction d as [|[k' v'] d IH]; simpl; [done|].
  intros Hk. apply not_elem_of_cons in Hk as [Hne Hk].
  rewrite decide_False by done. by rewrite IH.
Qed.

Lemma dict_fold_nodup items d :
  NoDup ((d ++ items).*1) →
  fold_left (λ d kv, PyDict.set kv.1 kv.2 d) items d = d ++ items.
Proof.
  revert d. induction items as [|[k v] items IH]; intros d Hnd; simpl.
  - by rewrite app_nil_r.
  - rewrite dict_set_fresh.
    + rewrite IH; rewrite <- app_assoc; done.
    + rewrite fmap_app, fmap_cons in Hnd. simpl in Hnd.
      apply NoDup_app in Hnd as (_ & Hdisj & _).
      intros Hin. apply (Hdisj k Hin). left.
Qed.

Lemma dict_of_items_nodup items :
  NoDup items.*1 → PyDict.of_items items = items.
Proof. intros Hnd. unfold PyDict.of_items. by rewrite dict_fold_nodup. Qed.

Lemma dict_contains_getitem k d :
  PyDict.contains k d = true → ∃ v, PyDict.getitem k d = Ok v.
Proof.
  unfold PyDict.contains, PyDict.getitem.
  intros [v ->]%bool_decide_eq_true. eauto.
Qed.

End dict_facts.

Lemma enumerate_cons {A} (x : A) (xs : list A) (start : Z) :
  enumerate (x :: xs) start = (start, x) :: enumerate xs (start + 1).
Proof.
  unfold enumerate. simpl length.
  rewrite seqZ_cons by lia. simpl. do 3 f_equal; lia.
Qed.

Lemma enumerate_keys {A} (xs : list A) (start : Z) :
  (enumerate xs start).*1 = seqZ start (Z.of_nat (length xs)).
Proof.
  unfold enumerate. apply fst_zip. rewrite length_seqZ. lia.
Qed.

Lemma enumerate_values {A} (xs : list A) (start : Z) :
  (enumerate xs start).*2 = xs.
Proof.
  unfold enumerate. apply snd_zip. rewrite length_seqZ. lia.
Qed.

Lemma enumerate_get {A} (xs : list A) (start p : Z) :
  PyDict.get p (enumerate xs start) =
    if decide (start ≤ p) then xs !! Z.to_nat (p - start) else None.
Proof.
  revert start. induction xs as [|x xs IH]; intros start.
  - unfold enumerate. simpl. by case_decide.
  - rewrite enumerate_cons. simpl. rewrite IH.
    destruct (decide (p = start)) as [->|Hne].
    + rewrite decide_True by lia. by rewrite Z.sub_diag.
    + repeat case_decide; try lia; try done.
      replace (Z.to_nat (p - start)) with (S (Z.to_nat (p - (start + 1))))
        by lia.
      done.
Qed.

Lemma size_list_to_set_le (l : list Symbol) :
  (size (list_to_set l : gset Symbol) ≤ length l)%nat.
Proof.
  induction l as [|x l IH].
  { rewrite list_to_set_nil, size_empty. done. }
  rewrite list_to_set_cons, size_union_alt, size_singleton. simpl length.
  assert (list_to_set l ∖ {[x]} ⊆ (list_to_set l : gset Symbol)) as Hsub
    by by apply subseteq_difference_l.
  apply subseteq_size in Hsub. lia.
Qed.

Lemma size_list_to_set_NoDup (l : list Symbol) :
  size (list_to_set l : gset Symbol) = length l ↔ NoDup l.
Proof.
  split; [|apply size_list_to_set].
  induction l as [|x l IH]; [constructor|].
  rewrite list_to_set_cons. simpl length.
  intros Hsz. destruct (decide (x ∈ l)) as [Hin|Hnin].
  - exfalso.
    assert ({[x]} ∪ list_to_set l = (list_to_set l : gset Symbol)) as Heq.
    { apply subseteq_union_1_L, singleton_subseteq_l.
      by apply elem_of_list_to_set. }
    rewrite Heq in Hsz. pose proof (size_list_to_set_le l). lia.
  - constructor; [done|]. apply IH.
    rewrite size_union, size_singleton in Hsz; [lia|].
    apply disjoint_singleton_l. by rewrite elem_of_list_to_set.
Qed.

(** ** The line scan of [winner] *)

Section winner_scan.
Variables (field : Field.t) (player : PlayerId).

Lemma scan_groups_app groups1 groups2 :
  scan_groups field player (groups1 ++ groups2) =
    match scan_groups field player groups1 with
    | Ok None => scan_groups field player groups2
    | found_or_raised => found_or_raised
    end.
Proof.
  induction groups1 as [|group groups1 IH]; simpl; [done|].
  destruct group as [|first group]; [done|].
  destruct (Field.get_symbol_at field first); [|done].
  by destruct (Field.are_all_equal_to_basis _ _ _).
Qed.

Lemma scan_families_concat families :
  scan_families field player families
  = scan_groups field player (concat families).
Proof.
  induction families as [|groups families IH]; simpl; [done|].
  rewrite scan_groups_app, IH.
  by destruct (scan_groups field player groups) as [[]|].
Qed.

Lemma all_groups_lines_of :
  row_groups field ++ col_groups field ++ diagonals field
  = lines_of (Field.grid_size field).
Proof. reflexivity. Qed.

(** On lines that all have a first cell the scan never raises: it stops
    at the first won line, or runs to the end. *)
Lemma scan_groups_find groups :
  Forall (λ group, group ≠ []) groups →
  scan_groups field player groups =
    Ok (match find (λ g, line_won field g) groups with
        | Some _ => Some player
        | None => None
        end).
Proof.
  induction 1 as [|group groups Hne _ IH]; simpl; [done|].
  destruct group as [|first group]; [done|].
  unfold line_won at 1, Field.are_all_equal_to_basis.
  destruct (Field.get_symbol_at field first); [|done].
  by destruct (forallb _ _).
Qed.

End winner_scan.

Lemma lines_of_nonempty n :
  1 ≤ n → Forall (λ line, line ≠ []) (lines_of n).
Proof.
  intros Hn.
  unfold lines_of, row_line, col_line, backslash, forward_slash.
  assert (∀ {A} (f : Z → A), f <$> seqZ 1 n ≠ []) as Hne.
  { intros A f. rewrite (seqZ_cons 1 n) by lia. done. }
  rewrite !Forall_app, !Forall_fmap. split_and!.
  - apply Forall_true. intros r. apply Hne.
  - apply Forall_true. intros c. apply Hne.
  - repeat constructor; apply Hne.
Qed.

Lemma lines_of_empty_grid n :
  n ≤ 0 → lines_of n = [[]; []].
Proof.
  intros Hn.
  unfold lines_of, row_line, col_line, backslash, forward_slash, seqZ.
  replace (Z.to_nat n) with 0%nat by lia. done.
Qed.

(** The Classic and the Wild scan, in closed form. *)
Lemma strategy_winner_scan g field player symbol :
  g ≠ NotaktoGameType →
  Strategy.winner g field player symbol =
    if decide (1 ≤ Field.grid_size field)
    then Ok (match find (λ l, line_won field l) (lines_of (Field.grid_size field)) with
             | Some _ => Some player
             | None => None
             end)
    else Raise IndexError.
Proof.
  intros Hg.
  assert (Strategy.winner g field player symbol
          = scan_groups field player (lines_of (Field.grid_size field))) as ->.
  { destruct g; [| |done];
      unfold Strategy.winner, TicTacToeGameType.winner, WildTicTacToeGameType.winner;
      rewrite scan_families_concat; reflexivity. }
  case_decide as Hn.
  - apply scan_groups_find, lines_of_nonempty, Hn.
  - by rewrite lines_of_empty_grid by lia.
Qed.

(** ** The orchestrator's state invariant *)

Lemma init_inv grid_size player_symbols player_count game_type self :
  __init__ grid_size player_symbols player_count game_type = Ok self →
  1 < player_count ∧ NoDup player_symbols ∧
  Z.of_nat (length player_symbols) = player_count ∧
  self = {| _valid_symbols := player_symbols;
            _game_type := game_type;
            _field := Field.new grid_size;
            _player_count := player_count;
            _player_to_symbol := enumerate player_symbols 1;
            _symbol_to_player :=
              (λ ks, (ks.2, ks.1)) <$> enumerate player_symbols 1;
            _current_player := 1 |}.
Proof.
  unfold __init__.
  case_bool_decide as Hpc; [done|].
  case_bool_decide as Hsz; [done|].
  case_bool_decide as Hlen; [done|].
  apply size_list_to_set_NoDup in Hsz.
  assert (PyDict.of_items (enumerate player_symbols 1)
          = enumerate player_symbols 1) as ->.
  { apply dict_of_items_nodup. rewrite enumerate_keys. apply NoDup_seqZ. }
  unfold PyDict.items.
  rewrite dict_of_items_nodup.
  - intros [= <-]. split_and!; [lia | done | done | done].
  - rewrite <- list_fmap_compose.
    replace ((fst ∘ λ ks : Z * Symbol, (ks.2, ks.1)) <$> enumerate player_symbols 1)
      with ((enumerate player_symbols 1).*2) by done.
    by rewrite enumerate_values.
Qed.

Lemma init_well_formed grid_size player_symbols player_count game_type self :
  __init__ grid_size player_symbols player_count game_type = Ok self →
  well_formed self.
Proof.
  intros (Hpc & Hnd & Hlen & ->)%init_inv.
  split; simpl; [lia | done | done | done | lia].
Qed.

Lemma is_game_over_set_field self field' over :
  is_game_over self = Ok over →
  Field.grid_size field' = Field.grid_size (_field self) →
  ∃ over', is_game_over (set_field field' self) = Ok over'.
Proof.
  unfold is_game_over, winner. simpl.
  destruct (PyDict.getitem _ _) as [symbol|]; simpl; [|done].
  destruct (decide (_game_type self = NotaktoGameType)) as [->|Hg]; [done|].
  rewrite !strategy_winner_scan by done.
  intros Hover ->. case_decide; simpl in *; [eauto | done].
Qed.

Lemma set_field_same self : set_field (_field self) self = self.
Proof. by destruct self. Qed.

Lemma next_player_range self :
  2 ≤ _player_count self →
  1 ≤ _current_player self ≤ _player_count self →
  1 ≤ next_player self ≤ _player_count self.
Proof.
  unfold next_player, current_player, player_count.
  case_bool_decide; lia.
Qed.

(** What a [place_symbol] call can do to the object: nothing, or record
    the symbol and possibly pass the turn. *)
Lemma place_symbol_cases symbol cell self :
  let out := place_symbol symbol cell self in
  (out.1 ≠ Ok VALID ∧ out.2 = self) ∨
  (out.1 = Ok VALID ∧
   let placed := set_field (Field.place_symbol symbol cell (_field self)) self in
   Field.get_symbol_at (_field self) cell = None ∧
   symbol ∈ _valid_symbols self ∧
   Field.is_within_bounds (_field self) cell = true ∧
   is_game_over self = Ok false ∧
   ((is_game_over placed = Ok true ∧ out.2 = placed) ∨
    (is_game_over placed = Ok false ∧ out.2 = _switch_to_next_player placed))).
Proof.
  unfold place_symbol.
  destruct (is_game_over self) as [over|e] eqn:Hover; [|by left].
  destruct (Strategy.place_symbol _ _ _ _ _ _) as [r field'] eqn:Hplace.
  destruct r as [fb|e].
  - destruct (decide (fb = VALID)) as [->|Hne].
    + apply place_symbol_valid_inv in Hplace as (-> & Hs & Hb & Hfree & ->).
      rewrite bool_decide_eq_true_2 by done.
      destruct (is_game_over (set_field _ _)) as [[]|e] eqn:Hover'.
      * right. simpl. eauto 10.
      * right. simpl. split_and!; try done. by right.
      * (* the second evaluation cannot raise where the first did not *)
        exfalso.
        apply (is_game_over_set_field _
                 (Field.place_symbol symbol cell (_field self)))
          in Hover as [over' Hover]; [congruence | done].
    + apply place_symbol_field_unchanged in Hplace as ->; [|done].
      rewrite bool_decide_eq_false_2 by done. left. simpl.
      split; [congruence | apply set_field_same].
  - left. simpl. split; [done|].
    destruct (_game_type self); simpl in Hplace;
      unfold TicTacToeGameType.place_symbol, WildTicTacToeGameType.place_symbol,
        NotaktoGameType.place_symbol in Hplace;
      repeat case_match; simplify_eq; apply set_field_same.
Qed.

Lemma well_formed_getitem self (player : PlayerId) :
  well_formed self →
  1 ≤ player ≤ _player_count self →
  ∃ symbol, PyDict.getitem player (_player_to_symbol self) = Ok symbol ∧
            _valid_symbols self !! Z.to_nat (player - 1) = Some symbol.
Proof.
  intros [] Hp. unfold PyDict.getitem.
  rewrite wf_player_to_symbol0, enumerate_get, decide_True by lia.
  destruct (lookup_lt_is_Some_2 (_valid_symbols self) (Z.to_nat (player - 1)))
    as [symbol Hs]; [lia|].
  rewrite Hs. eauto.
Qed.

Lemma is_game_over_switch self over :
  well_formed self →
  is_game_over self = Ok over →
  is_game_over (_switch_to_next_player self) = Ok over.
Proof.
  intros Hwf. unfold is_game_over, winner.
  cbn [_switch_to_next_player _current_player _player_to_symbol _game_type
       _field].
  destruct (well_formed_getitem self (next_player self) Hwf) as (s' & -> & _).
  { destruct Hwf. by apply next_player_range. }
  destruct (PyDict.getitem _ _) as [s|]; simpl; [|done].
  destruct (decide (_game_type self = NotaktoGameType)) as [->|Hg]; [done|].
  rewrite !strategy_winner_scan by done.
  case_decide; simpl; [|done].
  by destruct (find _ _).
Qed.

Lemma well_formed_set_field self field :
  well_formed self → well_formed (set_field field self).
Proof. by intros []. Qed.

Lemma well_formed_switch self :
  well_formed self → well_formed (_switch_to_next_player self).
Proof.
  intros []. split; simpl; try done. by apply next_player_range.
Qed.

Lemma reachable_well_formed self : reachable self → well_formed self.
Proof.
  induction 1 as [? ? ? ? self Hinit | self symbol cell _ IH].
  - by eapply init_well_formed.
  - destruct (place_symbol_cases symbol cell self)
      as [[_ ->] | (_ & _ & _ & _ & _ & [[_ ->] | [_ ->]])].
    + done.
    + by apply well_formed_set_field.
    + by apply well_formed_switch, well_formed_set_field.
Qed.

Lemma classic_start_init :
  __init__ 3 ["X"; "O"] 2 TicTacToeGameType = Ok classic_start.
Proof. reflexivity. Qed.

Lemma classic_start_reachable : reachable classic_start.
Proof. eapply reachable_init, classic_start_init. Qed.

(** ** Orchestrator placement *)

(** C5. A placement that the orchestrator answers with a Feedback other
    than VALID leaves the board's occupied-cell mapping and the current
    player exactly as they were before the call. *)
Theorem rejected_placement_no_mutation (self : GridGameModel.t)
    (symbol : Symbol) (cell : Cell) (fb : Feedback) :
  (place_symbol symbol cell self).1 = Ok fb →
  fb ≠ VALID →
  occupied_cells (place_symbol symbol cell self).2 = occupied_cells self ∧
  current_player (place_symbol symbol cell self).2 = current_player self.
Proof.
  intros Hfb Hne.
  destruct (place_symbol_cases symbol cell self) as [[_ ->] | [Hvalid _]].
  - done.
  - congruence.
Qed.

Lemma rejected_placement_no_mutation_witness :
  occupied_cells (place_symbol "X" (mkCell 4 1) classic_start).2
    = occupied_cells classic_start ∧
  current_player (place_symbol "X" (mkCell 4 1) classic_start).2
    = current_player classic_start.
Proof.
  apply (rejected_placement_no_mutation classic_start "X" (mkCell 4 1)
           OUT_OF_BOUNDS).
  - reflexivity.
  - discriminate.
Defined.

(** C4. After a placement that the orchestrator answers with VALID, the
    game-over query returns; when it says the game is not over the current
    player is the former next player, and when it says the game is over
    the current player is still the player who just moved. *)
Theorem valid_placement_turn_advance (self : GridGameModel.t)
    (symbol : Symbol) (cell : Cell) :
  reachable self →
  (place_symbol symbol cell self).1 = Ok VALID →
  let self' := (place_symbol symbol cell self).2 in
  ∃ over, is_game_over self' = Ok over ∧
    (over = false → current_player self' = next_player self) ∧
    (over = true → current_player self' = current_player self).
Proof.
  intros Hwf%reachable_well_formed Hvalid. simpl.
  destruct (place_symbol_cases symbol cell self)
    as [[? _] | (_ & _ & _ & _ & _ & [[Hover ->] | [Hover ->]])]; [done| |].
  - exists true. by rewrite Hover.
  - exists false. split_and!; [|done|done].
    by apply is_game_over_switch; [apply well_formed_set_field|].
Qed.

Lemma valid_placement_turn_advance_witness :
  ∃ over,
    is_game_over (place_symbol "X" (mkCell 1 1) classic_start).2 = Ok over ∧
    (over = false →
       current_player (place_symbol "X" (mkCell 1 1) classic_start).2
         = next_player classic_start) ∧
    (over = true →
       current_player (place_symbol "X" (mkCell 1 1) classic_start).2
         = current_player classic_start).
Proof.
  apply (valid_placement_turn_advance classic_start "X" (mkCell 1 1)).
  - apply classic_start_reachable.
  - reflexivity.
Defined.

(** C6. In every reachable state of a match the current player lies in
    [1..player_count]; the next player is 1 when the current player equals
    [player_count], and the current player plus one otherwise. *)
Theorem current_player_in_range (self : GridGameModel.t) :
  reachable self →
  1 ≤ current_player self ≤ player_count self ∧
  (current_player self = player_count self → next_player self = 1) ∧
  (current_player self ≠ player_count self →
     next_player self = current_player self + 1).
Proof.
  intros [_ _ _ _ Hcp]%reachable_well_formed.
  unfold next_player. split; [|split].
  - exact Hcp.
  - intros Heq. by rewrite bool_decide_eq_false_2 by auto.
  - intros Hne. by rewrite bool_decide_eq_true_2.
Qed.

Lemma current_player_in_range_witness :
  let self := (place_symbol "X" (mkCell 1 1) classic_start).2 in
  1 ≤ current_player self ≤ player_count self ∧
  (current_player self = player_count self → next_player self = 1) ∧
  (current_player self ≠ player_count self →
     next_player self = current_player self + 1).
Proof.
  apply (current_player_in_range
           (place_symbol "X" (mkCell 1 1) classic_start).2).
  apply reachable_place, classic_start_reachable.
Defined.

(** What the orchestrator hands to the strategy as the allowed symbols is
    the whole symbol list of the match: in a game that is not over, a
    Classic or Wild placement is answered INVALID_SYMBOL exactly when the
    symbol is none of the players' symbols. *)
Lemma place_symbol_invalid_symbol_iff (self : GridGameModel.t)
    (symbol : Symbol) (cell : Cell) :
  _game_type self ≠ NotaktoGameType →
  is_game_over self = Ok false →
  (place_symbol symbol cell self).1 = Ok INVALID_SYMBOL ↔
  symbol ∉ _valid_symbols self.
Proof.
  intros Hg Hover. unfold place_symbol. rewrite Hover.
  assert (Strategy.place_symbol (_game_type self) symbol cell false
            (_valid_symbols self) (_field self)
          = TicTacToeGameType.place_symbol symbol cell false
              (_valid_symbols self) (_field self)) as ->
    by by destruct (_game_type self).
  unfold TicTacToeGameType.place_symbol.
  case_bool_decide as Hs; simpl; [done|].
  split; [|done].
  destruct (negb _); [simpl; discriminate|].
  destruct (bool_decide _); [simpl; discriminate|].
  cbv beta iota. rewrite (bool_decide_eq_true_2 (VALID = VALID)) by done.
  destruct (is_game_over (set_field _ _)) as [[]|]; simpl; discriminate.
Qed.

(** C1. In the Classic match of two players with symbols X and O on a
    3 by 3 board, the game is not over, player 1 is to move and may only
    choose X; still, placing O at (1,1) is answered VALID, the O is
    recorded on the board and the turn passes to player 2. *)
Theorem classic_accepts_other_players_symbol :
  __init__ 3 ["X"; "O"] 2 TicTacToeGameType = Ok classic_start ∧
  is_game_over classic_start = Ok false ∧
  current_player classic_start = 1 ∧
  get_symbol_choices classic_start 1 = Ok ["X"] ∧
  (place_symbol "O" (mkCell 1 1) classic_start).1 = Ok VALID ∧
  occupied_cells (place_symbol "O" (mkCell 1 1) classic_start).2
    = {[ mkCell 1 1 := "O" ]} ∧
  current_player (place_symbol "O" (mkCell 1 1) classic_start).2 = 2.
Proof. split_and!; reflexivity. Qed.

(** The scenarios of a win, of a rejected move after it, and of a draw. *)
Example classic_row_win_scenario :
  winner classic_row_win = Ok (Some 1) ∧
  is_game_over classic_row_win = Ok true ∧
  current_player classic_row_win = 1 ∧
  place_symbol "O" (mkCell 3 3) classic_row_win
    = (Ok GAME_OVER, classic_row_win).
Proof. split_and!; reflexivity. Qed.

Example classic_draw_scenario :
  winner classic_draw = Ok None ∧
  is_game_over classic_draw = Ok true ∧
  size (occupied_cells classic_draw) = 9%nat.
Proof. split_and!; reflexivity. Qed.

Example occupied_scenario :
  (place_symbol "O" (mkCell 1 1) (play [("X", mkCell 1 1)] classic_start)).1
    = Ok OCCUPIED.
Proof. reflexivity. Qed.

(** ** Construction *)

(** C8. Construction raises [ValueError] when the player count is at most
    one, when the symbol sequence has a duplicate, or when its length
    differs from the player count; for every other input it succeeds, with
    player 1 to move, the given symbols and count, and an empty board. *)
Theorem init_checks (grid_size : Z) (player_symbols : list Symbol)
    (player_count : Z) (game_type : GameType) :
  let invalid :=
    player_count ≤ 1 ∨ ¬ NoDup player_symbols ∨
    Z.of_nat (length player_symbols) ≠ player_count in
  (invalid →
     __init__ grid_size player_symbols player_count game_type
       = Raise ValueError) ∧
  (¬ invalid →
     ∃ self,
       __init__ grid_size player_symbols player_count game_type = Ok self ∧
       current_player self = 1 ∧
       GridGameModel.player_count self = player_count ∧
       _valid_symbols self = player_symbols ∧
       _game_type self = game_type ∧
       occupied_cells self = ∅).
Proof.
  intros invalid. unfold invalid, __init__.
  pose proof (size_list_to_set_NoDup player_symbols) as Hnd.
  split.
  - intros Hinv.
    case_bool_decide; [done|].
    case_bool_decide; [done|].
    case_bool_decide; [done|].
    exfalso. destruct Hinv as [?|[Hdup|?]]; [lia | | lia].
    by apply Hdup, Hnd.
  - intros Hok.
    rewrite !bool_decide_eq_false_2.
    + eexists. split; [reflexivity|]. done.
    + intros Hlen. apply Hok. auto.
    + intros Hsz. apply Hok. right; left. intros Hn. by apply Hsz, Hnd.
    + intros Hpc. apply Hok. auto.
Qed.

(** ** Symbol choices *)

Lemma dict_contains_enumerate (xs : list Symbol) (player : PlayerId) :
  @PyDict.contains PlayerId Symbol _ player (enumerate xs 1) = true ↔
  1 ≤ player ≤ Z.of_nat (length xs).
Proof.
  unfold PyDict.contains. rewrite bool_decide_eq_true, enumerate_get.
  case_decide as Hp.
  - rewrite lookup_lt_is_Some. lia.
  - split; [by intros [? ?] | lia].
Qed.

(** C9. In a match under the Classic or the Wild strategy,
    [get_symbol_choices(player)] raises [ValueError] exactly when the player
    is outside [1..player_count]; for a known player the Classic strategy
    returns the one-element list of the symbol assigned to that player (the
    one at the player's position in the symbol sequence) and the Wild
    strategy returns all players' symbols in seat order. *)
Theorem get_symbol_choices_spec (self : GridGameModel.t) (player : PlayerId) :
  reachable self →
  _game_type self ≠ NotaktoGameType →
  let known := 1 ≤ player ≤ player_count self in
  (get_symbol_choices self player = Raise ValueError ↔ ¬ known) ∧
  (known → _game_type self = TicTacToeGameType →
     ∃ symbol,
       _valid_symbols self !! Z.to_nat (player - 1) = Some symbol ∧
       get_symbol_choices self player = Ok [symbol]) ∧
  (known → _game_type self = WildTicTacToeGameType →
     get_symbol_choices self player = Ok (_valid_symbols self)).
Proof.
  intros Hwf%reachable_well_formed Hg known.
  pose proof (dict_contains_enumerate (_valid_symbols self) player) as Hin.
  pose proof (well_formed_getitem self player Hwf) as Hget.
  destruct Hwf as [_ _ Hlen Hp2s _].
  unfold get_symbol_choices, known, player_count. rewrite Hp2s, Hlen in *.
  destruct (PyDict.contains player _) eqn:Hc.
  - assert (1 ≤ player ≤ _player_count self) as Hk by by apply Hin.
    destruct (Hget Hk) as (symbol & Hsym & Hnth).
    destruct (_game_type self); [| |done]; simpl;
      unfold TicTacToeGameType.get_symbol_choices, WildTicTacToeGameType.get_symbol_choices;
      rewrite Hc; simpl; rewrite ?Hsym; simpl.
    + split_and!; [split; [done | tauto] | eauto | done].
    + unfold PyDict.values. rewrite enumerate_values.
      split_and!; [split; [done | tauto] | done | done].
  - assert (¬ 1 ≤ player ≤ _player_count self) as Hk.
    { intros Hk. apply Hin in Hk. congruence. }
    destruct (_game_type self); [| |done]; simpl;
      unfold TicTacToeGameType.get_symbol_choices, WildTicTacToeGameType.get_symbol_choices;
      rewrite Hc; simpl; (split_and!; [done | tauto | tauto]).
Qed.

Lemma get_symbol_choices_spec_witness :
  (get_symbol_choices classic_start 2 = Raise ValueError ↔
     ¬ 1 ≤ 2 ≤ player_count classic_start) ∧
  (1 ≤ 2 ≤ player_count classic_start →
   _game_type classic_start = TicTacToeGameType →
     ∃ symbol,
       _valid_symbols classic_start !! Z.to_nat (2 - 1) = Some symbol ∧
       get_symbol_choices classic_start 2 = Ok [symbol]) ∧
  (1 ≤ 2 ≤ player_count classic_start →
   _game_type classic_start = WildTicTacToeGameType →
     get_symbol_choices classic_start 2 = Ok (_valid_symbols classic_start)).
Proof.
  apply (get_symbol_choices_spec classic_start 2).
  - apply classic_start_reachable.
  - discriminate.
Defined.

(** ** Win detection *)

Lemma forallb_bool_decide {A} (P : A → Prop) `{∀ x, Decision (P x)}
    (l : list A) :
  forallb (λ x, bool_decide (P x)) l = true ↔ Forall P l.
Proof.
  induction l as [|x l IH]; simpl.
  - split; [constructor | done].
  - by rewrite andb_true_iff, bool_decide_eq_true, IH, Forall_cons.
Qed.

Lemma line_won_spec field line :
  line_won field line = true ↔
  ∃ first rest basis,
    line = first :: rest ∧
    Field.get_symbol_at field first = Some basis ∧
    line_filled_with field basis line.
Proof.
  unfold line_won, line_filled_with. destruct line as [|first rest].
  { split; [done | by intros (? & ? & ? & ? & _)]. }
  destruct (Field.get_symbol_at field first) as [basis|] eqn:Hfirst.
  - rewrite (forallb_bool_decide
               (λ c, Field.get_symbol_at field c = Some basis)).
    split.
    + intros Hall. by exists first, rest, basis.
    + intros (? & ? & basis' & [= <- <-] & Hb & Hall).
      rewrite Hfirst in Hb. by injection Hb as <-.
  - split; [done|].
    intros (? & ? & ? & [= <- <-] & Hb & _). congruence.
Qed.

Lemma forward_slash_lookup n k :
  1 ≤ k ≤ n →
  forward_slash n !! Z.to_nat (k - 1) = Some (mkCell k (n - k + 1)).
Proof.
  intros Hk. unfold forward_slash.
  rewrite list_lookup_fmap, (lookup_seqZ_lt 1 n) by lia. simpl.
  do 2 f_equal; lia.
Qed.

(** C7. On a board of size at least one, the Classic and the Wild
    [winner] scan the lines in this order: every full row, then every full
    column, then the backslash diagonal, then the forward-slash diagonal
    whose cells are [(k, grid_size - k + 1)] for [k] in [1..grid_size].
    The result is the passed player as soon as some line in that order has
    an occupied first cell and all cells holding that cell's symbol, and
    [None] when no line has; a line whose first cell is unoccupied never
    counts. *)
Theorem winner_line_scan (g : GameType) (field : Field.t) (player : PlayerId)
    (symbol : Symbol) :
  g = TicTacToeGameType ∨ g = WildTicTacToeGameType →
  1 ≤ Field.grid_size field →
  let n := Field.grid_size field in
  concat [row_groups field; col_groups field; diagonals field] = lines_of n ∧
  length (forward_slash n) = Z.to_nat n ∧
  (∀ k, 1 ≤ k ≤ n →
     forward_slash n !! Z.to_nat (k - 1) = Some (mkCell k (n - k + 1))) ∧
  Strategy.winner g field player symbol =
    Ok (match find (λ line, line_won field line) (lines_of n) with
        | Some _ => Some player
        | None => None
        end) ∧
  (∀ first rest,
     Field.get_symbol_at field first = None →
     line_won field (first :: rest) = false) ∧
  ((∀ line, line ∈ lines_of n → line_won field line = false) →
     Strategy.winner g field player symbol = Ok None).
Proof.
  intros Hg Hn n.
  assert (g ≠ NotaktoGameType) as Hg' by (by destruct Hg as [-> | ->]).
  pose proof (strategy_winner_scan g field player symbol Hg') as Hscan.
  rewrite decide_True in Hscan by done. fold n in Hscan.
  split_and!.
  - reflexivity.
  - unfold forward_slash. by rewrite length_fmap, length_seqZ.
  - apply forward_slash_lookup.
  - exact Hscan.
  - intros first rest Hfirst. simpl. by rewrite Hfirst.
  - intros Hnone. rewrite Hscan.
    destruct (find _ _) as [line|] eqn:Hfind; [|done].
    apply find_some in Hfind as [Hin Hwon].
    apply list_elem_of_In, Hnone in Hin. congruence.
Qed.

Lemma winner_line_scan_witness :
  Strategy.winner TicTacToeGameType top_row_of_O 1 "X" = Ok (Some 1).
Proof.
  destruct (winner_line_scan TicTacToeGameType top_row_of_O 1 "X")
    as (_ & _ & _ & Hscan & _).
  - left. reflexivity.
  - done.
  - rewrite Hscan. reflexivity.
Defined.

(** On a board without cells the two diagonals are empty lines and the
    scan stops at the first of them with an [IndexError]. *)
Lemma winner_empty_grid_raises g field player symbol :
  g ≠ NotaktoGameType →
  Field.grid_size field ≤ 0 →
  Strategy.winner g field player symbol = Raise IndexError.
Proof.
  intros Hg Hn. rewrite strategy_winner_scan by done.
  by rewrite decide_False by lia.
Qed.

(** The passed symbol plays no part in the scan. *)
Lemma winner_symbol_irrelevant g field player symbol symbol' :
  Strategy.winner g field player symbol
  = Strategy.winner g field player symbol'.
Proof. by destruct g. Qed.

(** C2. A win is reported only for a completed line, and only for the
    passed player: whenever [winner] returns a player, that player is the
    passed one and some full row, column or diagonal has all its cells
    holding one and the same symbol, the symbol of the line's first cell.
    That symbol need not be the passed symbol. *)
Theorem winner_only_on_completed_line (g : GameType) (field : Field.t)
    (player : PlayerId) (symbol : Symbol) (w : PlayerId) :
  Strategy.winner g field player symbol = Ok (Some w) →
  w = player ∧
  ∃ line basis,
    line ∈ lines_of (Field.grid_size field) ∧
    line ≠ [] ∧
    line_filled_with field basis line.
Proof.
  intros Hw.
  assert (g ≠ NotaktoGameType) as Hg by (by intros ->).
  rewrite strategy_winner_scan in Hw by done.
  case_decide; [|done].
  destruct (find _ _) as [line|] eqn:Hfind; [|done].
  injection Hw as <-. split; [done|].
  apply find_some in Hfind as [Hin Hwon].
  apply line_won_spec in Hwon as (first & rest & basis & -> & _ & Hall).
  exists (first :: rest), basis. split_and!; [|done..].
  by apply list_elem_of_In.
Qed.

Lemma winner_only_on_completed_line_witness :
  1 = 1 ∧
  ∃ line basis,
    line ∈ lines_of (Field.grid_size top_row_of_O) ∧
    line ≠ [] ∧
    line_filled_with top_row_of_O basis line.
Proof.
  apply (winner_only_on_completed_line TicTacToeGameType top_row_of_O 1 "X" 1).
  reflexivity.
Defined.

(** C2, as stated, fails: on the board whose first row is filled with O,
    the Classic (and the Wild) [winner] called for player 1 with symbol X
    returns player 1, although no row, column or diagonal is filled
    with X. *)
Lemma winner_other_symbol_line :
  Strategy.winner TicTacToeGameType top_row_of_O 1 "X" = Ok (Some 1) ∧
  Strategy.winner WildTicTacToeGameType top_row_of_O 1 "X" = Ok (Some 1) ∧
  ¬ Exists (line_filled_with top_row_of_O "X")
      (lines_of (Field.grid_size top_row_of_O)).
Proof.
  split_and!; [reflexivity..|].
  intros Hex. apply Exists_exists in Hex as (line & Hin & Hall).
  vm_compute in Hin.
  repeat (apply elem_of_cons in Hin as [-> | Hin]);
    [..| by apply elem_of_nil in Hin];
    apply Forall_cons_1 in Hall as [Hc _]; vm_compute in Hc; discriminate.
Qed.

(** * Further properties of the orchestrator and the strategies *)

Lemma is_game_over_not_notakto self over :
  is_game_over self = Ok over → _game_type self ≠ NotaktoGameType.
Proof.
  unfold is_game_over, winner. intros Hover Hg. rewrite Hg in Hover.
  destruct (PyDict.getitem _ _); discriminate.
Qed.

Lemma play_reachable moves self :
  reachable self → reachable (play moves self).
Proof.
  revert self. induction moves as [|move moves IH]; intros self Hself.
  - done.
  - apply IH. by apply reachable_place.
Qed.

(** X1. Whatever a [place_symbol] call answers, every cell that was
    occupied before the call holds the same symbol after it: no cell is
    ever vacated or overwritten. *)
Theorem occupied_cells_only_grow (self : GridGameModel.t) (symbol : Symbol)
    (cell : Cell) :
  occupied_cells self ⊆ occupied_cells (place_symbol symbol cell self).2.
Proof.
  destruct (place_symbol_cases symbol cell self)
    as [[_ ->] | (_ & Hfree & _ & _ & _ & [[_ ->] | [_ ->]])]; [done| |];
    by apply insert_subseteq.
Qed.

(** X2. A placement answered VALID adds exactly one cell to the board: the
    cell was unoccupied and within bounds, the symbol is one of the match's
    symbols, the board afterwards is the old one with the symbol at that
    cell, and the number of occupied cells grows by one. *)
Theorem valid_placement_adds_one_cell (self : GridGameModel.t)
    (symbol : Symbol) (cell : Cell) :
  (place_symbol symbol cell self).1 = Ok VALID →
  occupied_cells self !! cell = None ∧
  Field.is_within_bounds (_field self) cell = true ∧
  symbol ∈ _valid_symbols self ∧
  occupied_cells (place_symbol symbol cell self).2
    = <[cell := symbol]> (occupied_cells self) ∧
  size (occupied_cells (place_symbol symbol cell self).2)
    = S (size (occupied_cells self)).
Proof.
  intros Hvalid.
  destruct (place_symbol_cases symbol cell self)
    as [[? _] | (_ & Hfree & Hs & Hb & _ & [[_ ->] | [_ ->]])]; [done| |];
    (split_and!; [done | done | done | done |]);
    by apply map_size_insert_None.
Qed.

Lemma valid_placement_adds_one_cell_witness :
  occupied_cells classic_start !! mkCell 2 2 = None ∧
  Field.is_within_bounds (_field classic_start) (mkCell 2 2) = true ∧
  "X" ∈ _valid_symbols classic_start ∧
  occupied_cells (place_symbol "X" (mkCell 2 2) classic_start).2
    = <[mkCell 2 2 := "X"]> (occupied_cells classic_start) ∧
  size (occupied_cells (place_symbol "X" (mkCell 2 2) classic_start).2)
    = S (size (occupied_cells classic_start)).
Proof.
  apply (valid_placement_adds_one_cell classic_start "X" (mkCell 2 2)).
  reflexivity.
Defined.

(** X3. A finished game is final: once [is_game_over] is true, every
    [place_symbol] call is answered GAME_OVER and leaves the whole match
    object as it is, whatever the symbol and the cell. *)
Theorem game_over_is_absorbing (self : GridGameModel.t) (symbol : Symbol)
    (cell : Cell) :
  is_game_over self = Ok true →
  place_symbol symbol cell self = (Ok GAME_OVER, self).
Proof.
  intros Hover. pose proof (is_game_over_not_notakto _ _ Hover) as Hg.
  unfold place_symbol. rewrite Hover.
  destruct (_game_type self); [| |done]; simpl; by rewrite set_field_same.
Qed.

Lemma game_over_is_absorbing_witness :
  place_symbol "O" (mkCell 3 3) classic_row_win
    = (Ok GAME_OVER, classic_row_win).
Proof.
  apply (game_over_is_absorbing classic_row_win "O" (mkCell 3 3)).
  reflexivity.
Defined.

(** X4. [place_symbol] is exception safe: when the call raises, the match
    object is exactly as before the call.  An exception can only come from
    the first evaluation of [is_game_over], before the strategy touches the
    board. *)
Theorem place_symbol_exception_safe (self : GridGameModel.t)
    (symbol : Symbol) (cell : Cell) (e : exn) :
  (place_symbol symbol cell self).1 = Raise e →
  (place_symbol symbol cell self).2 = self ∧ is_game_over self = Raise e.
Proof.
  intros Hraise.
  destruct (place_symbol_cases symbol cell self) as [[_ Hsame] | [Hvalid _]];
    [|congruence].
  split; [done|].
  revert Hraise. unfold place_symbol.
  destruct (is_game_over self) as [over|e'] eqn:Hover; [|by intros [= ->]].
  pose proof (is_game_over_not_notakto _ _ Hover) as Hg.
  assert (Strategy.place_symbol (_game_type self) symbol cell over
            (_valid_symbols self) (_field self)
          = TicTacToeGameType.place_symbol symbol cell over
              (_valid_symbols self) (_field self)) as ->
    by by destruct (_game_type self).
  unfold TicTacToeGameType.place_symbol.
  destruct over; [simpl; discriminate|].
  destruct (bool_decide (symbol ∉ _)); [simpl; discriminate|].
  destruct (negb _); [simpl; discriminate|].
  destruct (bool_decide (_ ≠ None)); [simpl; discriminate|].
  cbv beta iota. rewrite (bool_decide_eq_true_2 (VALID = VALID)) by done.
  destruct (is_game_over_set_field self
              (Field.place_symbol symbol cell (_field self)) false Hover)
    as [over' ->]; [done|].
  destruct over'; simpl; discriminate.
Qed.

Lemma place_symbol_exception_safe_witness :
  (place_symbol "X" (mkCell 1 1) notakto_start).2 = notakto_start ∧
  is_game_over notakto_start = Raise NotImplementedError.
Proof.
  apply (place_symbol_exception_safe notakto_start "X" (mkCell 1 1)).
  reflexivity.
Defined.

(** X5. In a match that runs the reserved Notakto strategy every query and
    every placement raises [NotImplementedError]: [winner], [is_game_over],
    [get_symbol_choices] for any player, and [place_symbol], which leaves
    the match object untouched. *)
Theorem notakto_match_raises (self : GridGameModel.t) :
  reachable self →
  _game_type self = NotaktoGameType →
  winner self = Raise NotImplementedError ∧
  is_game_over self = Raise NotImplementedError ∧
  (∀ player, get_symbol_choices self player = Raise NotImplementedError) ∧
  (∀ symbol cell,
     place_symbol symbol cell self = (Raise NotImplementedError, self)).
Proof.
  intros Hwf%reachable_well_formed Hg.
  destruct (well_formed_getitem self (_current_player self) Hwf)
    as (symbol & Hsym & _); [by destruct Hwf|].
  assert (winner self = Raise NotImplementedError) as Hw.
  { unfold winner. by rewrite Hsym, Hg. }
  assert (is_game_over self = Raise NotImplementedError) as Hover.
  { unfold is_game_over. by rewrite Hw. }
  split_and!; [done | done | |].
  - intros player. unfold get_symbol_choices. by rewrite Hg.
  - intros s c. unfold place_symbol. by rewrite Hover.
Qed.

Lemma notakto_match_raises_witness :
  winner notakto_start = Raise NotImplementedError ∧
  is_game_over notakto_start = Raise NotImplementedError ∧
  (∀ player,
     get_symbol_choices notakto_start player = Raise NotImplementedError) ∧
  (∀ symbol cell,
     place_symbol symbol cell notakto_start
       = (Raise NotImplementedError, notakto_start)).
Proof.
  apply (notakto_match_raises notakto_start).
  - by apply (reachable_init 3 ["X"; "O"] 2 NotaktoGameType).
  - reflexivity.
Defined.

(** X6. Win detection of the Classic and the Wild strategy is exact on a
    board of size at least one: [winner] returns the passed player if and
    only if some full row, column or diagonal has all its cells holding one
    and the same symbol, and it returns [None] otherwise. *)
Theorem winner_iff_completed_line (g : GameType) (field : Field.t)
    (player : PlayerId) (symbol : Symbol) :
  g ≠ NotaktoGameType →
  1 ≤ Field.grid_size field →
  let completed :=
    ∃ line basis,
      line ∈ lines_of (Field.grid_size field) ∧
      line_filled_with field basis line in
  (Strategy.winner g field player symbol = Ok (Some player) ↔ completed) ∧
  (Strategy.winner g field player symbol = Ok None ↔ ¬ completed).
Proof.
  intros Hg Hn completed.
  rewrite strategy_winner_scan, decide_True by done.
  assert (is_Some (find (λ l, line_won field l)
                        (lines_of (Field.grid_size field))) ↔ completed)
    as Hfind.
  { split.
    - intros [line [Hin Hwon]%find_some].
      apply line_won_spec in Hwon as (? & ? & basis & _ & _ & Hall).
      exists line, basis. by rewrite list_elem_of_In.
    - intros (line & basis & Hin & Hall).
      destruct (find _ _) as [|] eqn:Hnone; [eauto|]. exfalso.
      pose proof (find_none _ _ Hnone line) as Hlost. simpl in Hlost.
      rewrite <- list_elem_of_In in Hlost. specialize (Hlost Hin).
      assert (line_won field line = true) as Hwon; [|congruence].
      pose proof (lines_of_nonempty _ Hn) as Hne.
      rewrite Forall_forall in Hne. specialize (Hne line Hin).
      destruct line as [|first rest]; [done|].
      apply line_won_spec. exists first, rest, basis.
      split_and!; [done | | done].
      by apply Forall_cons_1 in Hall as [? _]. }
  destruct (find _ _) as [line|].
  - assert completed as Hc by (apply Hfind; eauto).
    split; (split; [|done]).
    + by intros _.
    + discriminate.
  - assert (¬ completed) as Hc by (by intros [? ?]%Hfind).
    split; (split; [|done]).
    + discriminate.
    + by intros _.
Qed.

Lemma winner_iff_completed_line_witness :
  (Strategy.winner WildTicTacToeGameType top_row_of_O 2 "X" = Ok (Some 2) ↔
     ∃ line basis,
       line ∈ lines_of (Field.grid_size top_row_of_O) ∧
       line_filled_with top_row_of_O basis line) ∧
  (Strategy.winner WildTicTacToeGameType top_row_of_O 2 "X" = Ok None ↔
     ¬ ∃ line basis,
       line ∈ lines_of (Field.grid_size top_row_of_O) ∧
       line_filled_with top_row_of_O basis line).
Proof.
  apply (winner_iff_completed_line WildTicTacToeGameType top_row_of_O 2 "X").
  - discriminate.
  - done.
Defined.

(** X7. On a field without valid coordinates the Classic and the Wild
    [winner] raise [IndexError]: there is no row and no column, and the two
    diagonals are empty groups whose first cell is read. *)
Theorem winner_no_coords_raises (g : GameType) (field : Field.t)
    (player : PlayerId) (symbol : Symbol) :
  g ≠ NotaktoGameType →
  Field.valid_coords field = [] →
  Strategy.winner g field player symbol = Raise IndexError.
Proof.
  intros Hg Hnone.
  destruct g; [| |done]; simpl;
    unfold TicTacToeGameType.winner, WildTicTacToeGameType.winner,
      row_groups, col_groups, diagonals;
    by rewrite Hnone.
Qed.

Lemma winner_no_coords_raises_witness :
  Strategy.winner TicTacToeGameType (Field.new 0) 1 "X" = Raise IndexError.
Proof.
  apply (winner_no_coords_raises TicTacToeGameType (Field.new 0) 1 "X").
  - discriminate.
  - reflexivity.
Defined.

(** X8. Turns go round robin: in every reachable state the next player is
    [current_player mod player_count + 1], lies in [1..player_count], and is
    never the current player. *)
Theorem next_player_round_robin (self : GridGameModel.t) :
  reachable self →
  next_player self = current_player self `mod` player_count self + 1 ∧
  1 ≤ next_player self ≤ player_count self ∧
  next_player self ≠ current_player self.
Proof.
  intros [Hpc _ _ _ Hcp]%reachable_well_formed.
  unfold next_player, current_player, player_count.
  case_bool_decide as Hlast.
  - rewrite Z.mod_small by lia. lia.
  - rewrite Hlast, Z_mod_same_full. lia.
Qed.

Lemma next_player_round_robin_witness :
  next_player classic_row_win
    = current_player classic_row_win `mod` player_count classic_row_win + 1 ∧
  1 ≤ next_player classic_row_win ≤ player_count classic_row_win ∧
  next_player classic_row_win ≠ current_player classic_row_win.
Proof.
  apply (next_player_round_robin classic_row_win).
  apply play_reachable, classic_start_reachable.
Defined.

(** X9. [place_symbol] changes nothing of a match but the board's cells
    and the current player: the symbol list, the strategy, the player
    count, both player-symbol maps and the grid size are as before the
    call, whatever its outcome. *)
Theorem place_symbol_frame (self : GridGameModel.t) (symbol : Symbol)
    (cell : Cell) :
  let self' := (place_symbol symbol cell self).2 in
  _valid_symbols self' = _valid_symbols self ∧
  _game_type self' = _game_type self ∧
  player_count self' = player_count self ∧
  _player_to_symbol self' = _player_to_symbol self ∧
  _symbol_to_player self' = _symbol_to_player self ∧
  grid_size self' = grid_size self.
Proof.
  simpl.
  by destruct (place_symbol_cases symbol cell self)
    as [[_ ->] | (_ & _ & _ & _ & _ & [[_ ->] | [_ ->]])].
Qed.

Section dict_inverse.
Context {K V : Type} `{EqDecision K}.

Lemma dict_get_elem_of (d : list (K * V)) (k : K) (v : V) :
  NoDup d.*1 → PyDict.get k d = Some v ↔ (k, v) ∈ d.
Proof.
  induction d as [|[k' v'] d IH]; simpl.
  - intros _. split; [done | by intros ?%elem_of_nil].
  - intros [Hk' Hnd]%NoDup_cons. rewrite elem_of_cons, <- IH by done.
    case_decide as Hk.
    + subst k'. split; [intros [= ->]; by left|].
      intros [[= ->] | Hin]; [done|]. exfalso. apply Hk'.
      apply IH in Hin; [|done]. apply list_elem_of_fmap.
      by exists (k, v).
    + split; [by right | by intros [[= ? ?] | ?]].
Qed.

End dict_inverse.

Lemma dict_get_swap {K V : Type} `{EqDecision K, EqDecision V}
    (d : list (K * V)) (k : K) (v : V) :
  NoDup d.*1 → NoDup d.*2 →
  PyDict.get k d = Some v ↔ PyDict.get v ((λ kv, (kv.2, kv.1)) <$> d) = Some k.
Proof.
  intros Hk Hv. rewrite (dict_get_elem_of d) by done.
  rewrite dict_get_elem_of.
  - rewrite list_elem_of_fmap. split.
    + intros Hin. by exists (k, v).
    + by intros ([k' v'] & [= -> ->] & Hin).
  - rewrite <- list_fmap_compose.
    by replace ((fst ∘ λ kv : K * V, (kv.2, kv.1)) <$> d) with d.*2.
Qed.

(** X10. Construction builds two maps that are inverse to each other:
    player [p] is assigned symbol [s] in [_player_to_symbol] exactly when
    symbol [s] is assigned player [p] in [_symbol_to_player]. *)
Theorem symbol_player_maps_inverse (grid_size : Z)
    (player_symbols : list Symbol) (player_count : Z) (game_type : GameType)
    (self : GridGameModel.t) (p : PlayerId) (s : Symbol) :
  __init__ grid_size player_symbols player_count game_type = Ok self →
  PyDict.get p (_player_to_symbol self) = Some s ↔
  PyDict.get s (_symbol_to_player self) = Some p.
Proof.
  intros (_ & Hnd & _ & ->)%init_inv. simpl.
  apply dict_get_swap.
  - rewrite enumerate_keys. apply NoDup_seqZ.
  - by rewrite enumerate_values.
Qed.

Lemma symbol_player_maps_inverse_witness :
  PyDict.get 2 (_player_to_symbol classic_start) = Some "O" ↔
  PyDict.get "O" (_symbol_to_player classic_start) = Some 2.
Proof.
  apply (symbol_player_maps_inverse 3 ["X"; "O"] 2 TicTacToeGameType
           classic_start 2 "O").
  reflexivity.
Defined.

(** X11. In a Classic match two different players never get the same
    choice of symbols: [get_symbol_choices] is injective on the known
    players. *)
Theorem classic_choices_distinct (self : GridGameModel.t) (p q : PlayerId) :
  reachable self →
  _game_type self = TicTacToeGameType →
  1 ≤ p ≤ player_count self →
  1 ≤ q ≤ player_count self →
  get_symbol_choices self p = get_symbol_choices self q →
  p = q.
Proof.
  intros Hwf%reachable_well_formed Hg Hp Hq.
  destruct (well_formed_getitem self p Hwf Hp) as (sp & Hgp & Hnp).
  destruct (well_formed_getitem self q Hwf Hq) as (sq & Hgq & Hnq).
  destruct Hwf as [_ Hnd _ _ _].
  unfold get_symbol_choices. rewrite Hg. simpl.
  unfold TicTacToeGameType.get_symbol_choices, PyDict.contains.
  unfold PyDict.getitem in *.
  destruct (PyDict.get p _) as [?|]; [|done].
  destruct (PyDict.get q _) as [?|]; [|done].
  rewrite !bool_decide_eq_true_2 by eauto. simpl.
  injection Hgp as ->. injection Hgq as ->. intros [= ->].
  pose proof (NoDup_lookup _ _ _ _ Hnd Hnp Hnq). lia.
Qed.

Lemma classic_choices_distinct_witness : (2 : PlayerId) = 2.
Proof.
  apply (classic_choices_distinct classic_start 2 2).
  - apply classic_start_reachable.
  - reflexivity.
  - done.
  - done.
  - reflexivity.
Defined.

(** ** The board of a reachable match *)

Lemma grid_cells_within_bounds (field : Field.t) (cell : Cell) :
  Field.is_within_bounds field cell = true →
  cell ∈ grid_cells (Field.grid_size field).
Proof.
  intros [Hr Hc]%is_within_bounds_spec. unfold grid_cells.
  apply list_elem_of_fmap. exists (row cell, column cell).
  split; [by destruct cell|].
  apply list_elem_of_cprod. simpl. rewrite !elem_of_seqZ. lia.
Qed.

Lemma grid_cells_length (n : Z) :
  Z.of_nat (length (grid_cells n)) ≤ n * n.
Proof.
  unfold grid_cells.
  rewrite length_fmap, list_cprod_list_prod, length_prod, !length_seqZ. nia.
Qed.

Lemma size_list_to_set_cells (l : list Cell) :
  (size (list_to_set l : gset Cell) ≤ length l)%nat.
Proof.
  induction l as [|x l IH].
  { rewrite list_to_set_nil, size_empty. done. }
  rewrite list_to_set_cons, size_union_alt, size_singleton. simpl length.
  assert (list_to_set l ∖ {[x]} ⊆ (list_to_set l : gset Cell)) as Hsub
    by by apply subseteq_difference_l.
  apply subseteq_size in Hsub. lia.
Qed.

Lemma reachable_board_inv (self : GridGameModel.t) :
  reachable self →
  ∀ cell symbol,
    occupied_cells self !! cell = Some symbol →
    Field.is_within_bounds (_field self) cell = true ∧
    symbol ∈ _valid_symbols self.
Proof.
  induction 1 as [? ? ? ? self Hinit | self symbol cell _ IH].
  - apply init_inv in Hinit as (_ & _ & _ & ->). intros c s. simpl.
    unfold occupied_cells. simpl. by rewrite lookup_empty.
  - destruct (place_symbol_cases symbol cell self)
      as [[_ ->] | (_ & _ & Hs & Hb & _ & Hout)]; [done|].
    assert (∀ c s,
      <[cell := symbol]> (occupied_cells self) !! c = Some s →
      Field.is_within_bounds (_field self) c = true ∧
      s ∈ _valid_symbols self) as Hstep.
    { intros c s. rewrite lookup_insert. case_decide as Hc.
      - subst c. by intros [= <-].
      - apply IH. }
    destruct Hout as [[_ ->] | [_ ->]]; exact Hstep.
Qed.

(** X12. In every reachable state the board holds only what the rules
    let through: each occupied cell lies within [1..grid_size] in both axes
    and holds one of the symbols of the match, so that at most
    [grid_size * grid_size] cells are ever occupied. *)
Theorem reachable_board_bounded (self : GridGameModel.t) :
  reachable self →
  (∀ cell symbol,
     occupied_cells self !! cell = Some symbol →
     (1 ≤ row cell ≤ grid_size self ∧ 1 ≤ column cell ≤ grid_size self) ∧
     symbol ∈ _valid_symbols self) ∧
  Z.of_nat (size (occupied_cells self)) ≤ grid_size self * grid_size self.
Proof.
  intros Hreach. pose proof (reachable_board_inv self Hreach) as Hinv. split.
  - intros cell symbol [Hb Hs]%Hinv. split; [|done].
    by apply is_within_bounds_spec.
  - pose proof (grid_cells_length (grid_size self)) as Hlen.
    pose proof (size_list_to_set_cells (grid_cells (grid_size self))) as Hset.
    assert (dom (occupied_cells self)
            ⊆ list_to_set (grid_cells (grid_size self))) as Hsub.
    { intros cell [symbol Hcell]%elem_of_dom.
      apply elem_of_list_to_set, grid_cells_within_bounds.
      by destruct (Hinv cell symbol Hcell). }
    apply subseteq_size in Hsub. rewrite size_dom in Hsub. lia.
Qed.

Lemma reachable_board_bounded_witness :
  (∀ cell symbol,
     occupied_cells classic_draw !! cell = Some symbol →
     (1 ≤ row cell ≤ grid_size classic_draw ∧
      1 ≤ column cell ≤ grid_size classic_draw) ∧
     symbol ∈ _valid_symbols classic_draw) ∧
  Z.of_nat (size (occupied_cells classic_draw))
    ≤ grid_size classic_draw * grid_size classic_draw.
Proof.
  apply (reachable_board_bounded classic_draw).
  apply play_reachable, classic_start_reachable.
Defined.

(** X13. Whenever the game-over query returns, [place_symbol] returns a
    Feedback and never raises, and the Feedback is decided by the state
    before the call: GAME_OVER for a finished game; otherwise
    INVALID_SYMBOL for a symbol of no player; otherwise OUT_OF_BOUNDS for a
    cell off the board; otherwise OCCUPIED for a cell that holds a symbol;
    otherwise VALID. *)
Theorem place_symbol_feedback (self : GridGameModel.t) (symbol : Symbol)
    (cell : Cell) (over : bool) :
  is_game_over self = Ok over →
  (place_symbol symbol cell self).1 =
    Ok (if over then GAME_OVER
        else if bool_decide (symbol ∉ _valid_symbols self)
        then INVALID_SYMBOL
        else if negb (Field.is_within_bounds (_field self) cell)
        then OUT_OF_BOUNDS
        else if bool_decide (is_Some (occupied_cells self !! cell))
        then OCCUPIED
        else VALID).
Proof.
  intros Hover. pose proof (is_game_over_not_notakto _ _ Hover) as Hg.
  unfold place_symbol. rewrite Hover.
  assert (Strategy.place_symbol (_game_type self) symbol cell over
            (_valid_symbols self) (_field self)
          = TicTacToeGameType.place_symbol symbol cell over
              (_valid_symbols self) (_field self)) as ->
    by by destruct (_game_type self).
  unfold TicTacToeGameType.place_symbol, occupied_cells, Field.get_symbol_at.
  destruct over; [done|].
  destruct (bool_decide (symbol ∉ _)); [done|].
  destruct (negb _); [done|].
  destruct (Field.occupied_cells (_field self) !! cell) as [held|] eqn:Hcell.
  - rewrite bool_decide_eq_true_2 by done.
    rewrite (bool_decide_eq_true_2 (is_Some (Some held))) by eauto.
    reflexivity.
  - rewrite bool_decide_eq_false_2 by (by intros ?).
    rewrite (bool_decide_eq_false_2 (is_Some None)) by (by intros [? ?]).
    cbv beta iota. rewrite (bool_decide_eq_true_2 (VALID = VALID)) by done.
    destruct (is_game_over_set_field self
                (Field.place_symbol symbol cell (_field self)) false Hover)
      as [over' ->]; [done|].
    by destruct over'.
Qed.

Lemma place_symbol_feedback_witness :
  (place_symbol "X" (mkCell 1 1)
     (play [("X", mkCell 1 1)] classic_start)).1 =
    Ok (if false then GAME_OVER
        else if bool_decide
                  ("X" ∉ _valid_symbols (play [("X", mkCell 1 1)] classic_start))
        then INVALID_SYMBOL
        else if negb (Field.is_within_bounds
                        (_field (play [("X", mkCell 1 1)] classic_start))
                        (mkCell 1 1))
        then OUT_OF_BOUNDS
        else if bool_decide
                  (is_Some (occupied_cells
                              (play [("X", mkCell 1 1)] classic_start)
                            !! mkCell 1 1))
        then OCCUPIED
        else VALID).
Proof.
  apply (place_symbol_feedback (play [("X", mkCell 1 1)] classic_start)
           "X" (mkCell 1 1) false).
  reflexivity.
Defined.

(** X14. In a reachable Classic or Wild match on a board of size at least
    one the derived queries never raise: [winner] returns [None] or the
    current player, and [is_game_over] returns a boolean. *)
Theorem queries_return (self : GridGameModel.t) :
  reachable self →
  _game_type self ≠ NotaktoGameType →
  1 ≤ grid_size self →
  (winner self = Ok None ∨ winner self = Ok (Some (current_player self))) ∧
  (∃ over, is_game_over self = Ok over).
Proof.
  intros Hwf%reachable_well_formed Hg Hn.
  destruct (well_formed_getitem self (_current_player self) Hwf)
    as (symbol & Hsym & _); [by destruct Hwf|].
  assert (winner self = Ok None ∨
          winner self = Ok (Some (current_player self))) as Hw.
  { unfold winner. rewrite Hsym. simpl.
    rewrite strategy_winner_scan, decide_True by done.
    destruct (find _ _); auto. }
  split; [done|].
  unfold is_game_over. destruct Hw as [-> | ->]; simpl; eauto.
Qed.

Lemma queries_return_witness :
  (winner classic_draw = Ok None ∨
   winner classic_draw = Ok (Some (current_player classic_draw))) ∧
  (∃ over, is_game_over classic_draw = Ok over).
Proof.
  apply (queries_return classic_draw).
  - apply play_reachable, classic_start_reachable.
  - vm_compute. discriminate.
  - vm_compute. discriminate.
Defined.

Lemma is_game_over_with_wild (self : GridGameModel.t) :
  _game_type self = TicTacToeGameType →
  winner (with_game_type WildTicTacToeGameType self) = winner self ∧
  is_game_over (with_game_type WildTicTacToeGameType self)
    = is_game_over self.
Proof. destruct self. simpl. by intros ->. Qed.

(** X15. The Classic and the Wild strategy play the same game: a Classic
    match and the same match with the Wild strategy in it give the same
    [winner], the same [is_game_over], and for every placement the same
    outcome, the same board and the same next turn. *)
Theorem classic_wild_same_play (self : GridGameModel.t) (symbol : Symbol)
    (cell : Cell) :
  _game_type self = TicTacToeGameType →
  let wild := with_game_type WildTicTacToeGameType in
  winner (wild self) = winner self ∧
  is_game_over (wild self) = is_game_over self ∧
  place_symbol symbol cell (wild self) =
    ((place_symbol symbol cell self).1,
     wild (place_symbol symbol cell self).2).
Proof.
  intros Hg wild. subst wild.
  destruct (is_game_over_with_wild self Hg) as [Hw Hover].
  split_and!; [done | done |].
  unfold place_symbol. rewrite Hover.
  destruct (is_game_over self) as [over|e]; [|done].
  change (Strategy.place_symbol
            (_game_type (with_game_type WildTicTacToeGameType self))
            symbol cell over
            (_valid_symbols (with_game_type WildTicTacToeGameType self))
            (_field (with_game_type WildTicTacToeGameType self)))
    with (TicTacToeGameType.place_symbol symbol cell over
            (_valid_symbols self) (_field self)).
  rewrite Hg. simpl Strategy.place_symbol.
  destruct (TicTacToeGameType.place_symbol _ _ _ _ _) as [[fb|e] field'];
    [|done].
  case_bool_decide; [|done].
  change (set_field field' (with_game_type WildTicTacToeGameType self))
    with (with_game_type WildTicTacToeGameType (set_field field' self)).
  destruct (is_game_over_with_wild (set_field field' self) Hg) as [_ ->].
  by destruct (is_game_over (set_field field' self)) as [[]|].
Qed.

Lemma classic_wild_same_play_witness :
  winner (with_game_type WildTicTacToeGameType classic_start)
    = winner classic_start ∧
  is_game_over (with_game_type WildTicTacToeGameType classic_start)
    = is_game_over classic_start ∧
  place_symbol "O" (mkCell 2 2)
      (with_game_type WildTicTacToeGameType classic_start) =
    ((place_symbol "O" (mkCell 2 2) classic_start).1,
     with_game_type WildTicTacToeGameType
       (place_symbol "O" (mkCell 2 2) classic_start).2).
Proof.
  apply (classic_wild_same_play classic_start "O" (mkCell 2 2)).
  reflexivity.
Defined.

(** X16. The orchestrator's [winner] can only ever name the player whose
    turn it is, and a match with a winner is over. *)
Theorem winner_is_current_player (self : GridGameModel.t) (w : PlayerId) :
  winner self = Ok (Some w) →
  w = current_player self ∧ is_game_over self = Ok true.
Proof.
  intros Hw. split.
  - revert Hw. unfold winner.
    destruct (PyDict.getitem _ _) as [symbol|]; simpl; [|done].
    destruct (decide (_game_type self = NotaktoGameType)) as [->|Hg]; [done|].
    rewrite strategy_winner_scan by done.
    case_decide; [|done]. destruct (find _ _); [|done]. by intros [= <-].
  - unfold is_game_over. rewrite Hw. reflexivity.
Qed.

Lemma winner_is_current_player_witness :
  1 = current_player classic_row_win ∧ is_game_over classic_row_win = Ok true.
Proof.
  apply (winner_is_current_player classic_row_win 1).
  vm_compute. reflexivity.
Defined.

Lemma line_won_empty_board (n : Z) (line : list Cell) :
  line_won (Field.new n) line = false.
Proof.
  destruct line as [|first rest]; [done|].
  unfold line_won, Field.get_symbol_at. simpl. by rewrite lookup_empty.
Qed.

Lemma find_never {A} (f : A → bool) (l : list A) :
  (∀ x, f x = false) → find f l = None.
Proof.
  intros Hf. induction l as [|x l IH]; simpl; [done|]. by rewrite Hf.
Qed.

Lemma has_unoccupied_cell_empty_board (n : Z) :
  1 ≤ n → Field.has_unoccupied_cell (Field.new n) = true.
Proof.
  intros Hn. unfold Field.has_unoccupied_cell, Field.valid_coords.
  simpl Field.grid_size. rewrite (seqZ_cons 1 n) by lia. simpl.
  unfold Field.get_symbol_at. simpl. by rewrite lookup_empty.
Qed.

(** X17. A freshly constructed Classic or Wild match on a board of size at
    least one is in progress: the board is empty, there is no winner, the
    game is not over and player 1 is to move. *)
Theorem fresh_match_in_progress (grid_size : Z) (player_symbols : list Symbol)
    (player_count : Z) (game_type : GameType) (self : GridGameModel.t) :
  __init__ grid_size player_symbols player_count game_type = Ok self →
  game_type ≠ NotaktoGameType →
  1 ≤ grid_size →
  occupied_cells self = ∅ ∧
  winner self = Ok None ∧
  is_game_over self = Ok false ∧
  current_player self = 1.
Proof.
  intros Hinit Hg Hn.
  pose proof (init_well_formed _ _ _ _ _ Hinit) as Hwf.
  destruct (well_formed_getitem self (_current_player self) Hwf)
    as (symbol & Hsym & _); [by destruct Hwf|].
  apply init_inv in Hinit as (_ & _ & _ & Hself).
  assert (_field self = Field.new grid_size) as Hfield by by rewrite Hself.
  assert (_game_type self = game_type) as Hgame by by rewrite Hself.
  assert (_current_player self = 1) as Hcur by by rewrite Hself.
  clear Hself.
  assert (winner self = Ok None) as Hw.
  { unfold winner. rewrite Hsym, Hgame, Hfield. simpl.
    rewrite strategy_winner_scan, decide_True by done.
    by rewrite find_never by (intros line; apply line_won_empty_board). }
  split_and!.
  - unfold occupied_cells. by rewrite Hfield.
  - done.
  - unfold is_game_over. rewrite Hw, Hfield. simpl.
    by rewrite has_unoccupied_cell_empty_board.
  - done.
Qed.

Lemma fresh_match_in_progress_witness :
  occupied_cells wild_start = ∅ ∧
  winner wild_start = Ok None ∧
  is_game_over wild_start = Ok false ∧
  current_player wild_start = 1.
Proof.
  apply (fresh_match_in_progress 3 ["X"; "O"] 2 WildTicTacToeGameType
           wild_start).
  - reflexivity.
  - discriminate.
  - done.
Defined.
